(** * grokdisk: the MBR partition-table reader of [partition.go]

    A shallow embedding of [AnalyzeImageFile], of the [Partition] accessors
    [Start] and [Size], and of the pieces of the Go standard library the
    reader calls ([os.Open], [File.Seek], [io.ReadFull], [binary.Read] with
    [binary.LittleEndian], [errors.Wrap]), followed by the properties of the
    specification that are stated about them. *)

From Stdlib Require Import ZArith.
From Stdlib.Strings Require Import Byte.
From stdpp Require Import gmap strings list pretty.

Local Open Scope Z_scope.

(** ** Machine integers

    Go's fixed-width unsigned integers are integers of [Z] reduced modulo
    their width; a conversion [uintN(x)] is that reduction. *)

Definition uint16 (z : Z) : Z := z mod 2 ^ 16.
Definition uint32 (z : Z) : Z := z mod 2 ^ 32.
Definition uint64 (z : Z) : Z := z mod 2 ^ 64.

(** [uint32(b)] and [uint64(b)] of a byte [b]: its value, 0..255. *)
Definition byte_to_Z (b : byte) : Z := Z.of_N (Byte.to_N b).

(** [byte(v)]: the low eight bits of [v]. *)
Definition byte_of_Z (z : Z) : byte :=
  match Byte.of_N (Z.to_N (z mod 256)) with
  | Some b => b
  | None => x00
  end.

(** ** Errors

    [error] values the reader can meet.  [PathError] is [*os.PathError],
    [io_EOF] and [io_ErrUnexpectedEOF] are the two sentinel errors of
    package [io], and [withMessage] is what [errors.Wrap] of
    [github.com/pkg/errors] builds: the cause and the message (it also
    records the call stack, which is that of the one call site whatever
    the slot being read, and is left out). *)

Inductive Errno : Type := ENOENT | EACCES | EINVAL | ESPIPE.

Inductive error : Type :=
| PathError (Op : string) (Path : string) (Err : Errno)
| io_EOF
| io_ErrUnexpectedEOF
| withMessage (cause : error) (msg : string).

(** [errors.Wrap(err, message)] for a non-nil [err]. *)
Definition errors_Wrap (err : error) (message : string) : error :=
  withMessage err message.

(** ** Files

    What a path names: an error of [open(2)], or a resource holding a
    sequence of bytes, which may or may not support [lseek(2)] (a regular
    file does, a FIFO does not). *)

Record Resource : Type := mkResource {
  data : list byte;
  seekable : bool
}.

Definition FileSystem : Type := string → Errno + Resource.

(** [*os.File]: the resource behind the descriptor and the read cursor. *)
Record File : Type := mkFile {
  name : string;
  resource : Resource;
  pos : Z
}.

Definition os_Open (fs : FileSystem) (path : string) : error + File :=
  match fs path with
  | inl e => inl (PathError "open" path e)
  | inr r => inr {| name := path; resource := r; pos := 0 |}
  end.

(** [f.Seek(offset, os.SEEK_SET)].  As [lseek(2)]: a cursor beyond the end
    of a regular file is allowed, a negative one is not, and a resource that
    is not seekable refuses. *)
Definition File_Seek (f : File) (offset : Z) : error + (Z * File) :=
  if seekable (resource f) then
    if offset <? 0 then inl (PathError "seek" (name f) EINVAL)
    else inr (offset, {| name := name f; resource := resource f; pos := offset |})
  else inl (PathError "seek" (name f) ESPIPE).

(** [f.Read(b)] with [len(b) = n]: the bytes left from the cursor, at most
    [n] of them; [io.EOF] when [n > 0] and none is left. *)
Definition File_Read (f : File) (n : nat) : (list byte * option error) * File :=
  let bs := firstn n (skipn (Z.to_nat (pos f)) (data (resource f))) in
  let f' := {| name := name f; resource := resource f;
               pos := pos f + Z.of_nat (length bs) |} in
  match n, bs with
  | S _, [] => (([], Some io_EOF), f')
  | _, _ => ((bs, None), f')
  end.

(** [io.ReadFull(f, buf)] with [len(buf) = n]: "reads exactly len(buf) bytes.
    The error is EOF only if no bytes were read.  If an EOF happens after
    reading some but not all the bytes, ReadFull returns ErrUnexpectedEOF."
    A second [Read] after a short one finds nothing left and reports
    [io.EOF], which [ReadAtLeast] turns into [ErrUnexpectedEOF]. *)
Definition io_ReadFull (f : File) (n : nat) : (list byte * option error) * File :=
  let '((bs, err), f') := File_Read f n in
  match err with
  | Some e => ((bs, Some e), f')
  | None =>
      if (length bs <? n)%nat
      then ((bs, Some io_ErrUnexpectedEOF), f')
      else ((bs, None), f')
  end.

(** ** The partition table entry *)

Definition MBRPartitionTableOffset : Z := 0x1BE.
Definition MBRPartitionTableSize : Z := 0x10.

Record PartitionMetadata : Type := mkPartitionMetadata {
  Status : byte;
  StartHead : byte;
  StartSector : byte;
  StartCylinder : byte;
  PartitionType : byte;
  EndHead : byte;
  EndSector : byte;
  EndCylinder : byte;
  FirstSectorLBA : Z;   (* uint32 *)
  SectorCount : Z       (* uint32 *)
}.

(** ** [encoding/binary]

    [binary.LittleEndian.Uint32(b)]:
    [uint32(b[0]) | uint32(b[1])<<8 | uint32(b[2])<<16 | uint32(b[3])<<24]. *)
Definition LittleEndian_Uint32 (b : list byte) : Z :=
  Z.lor (Z.lor (Z.lor (byte_to_Z (nth 0 b x00))
                      (uint32 (Z.shiftl (byte_to_Z (nth 1 b x00)) 8)))
               (uint32 (Z.shiftl (byte_to_Z (nth 2 b x00)) 16)))
        (uint32 (Z.shiftl (byte_to_Z (nth 3 b x00)) 24)).

(** The [decoder] of package [binary]: a buffer and the offset of the next
    byte to consume; reading a field advances the offset.  The buffer a
    decoder is given always holds the whole value ([dataSize] bytes), so the
    default of [nth] is never met. *)
Module decoder.
Definition t (A : Type) : Type := list byte * nat → A * (list byte * nat).

Definition ret {A} (a : A) : t A := λ d, (a, d).
Definition bind {A B} (m : t A) (k : A → t B) : t B :=
  λ d, let '(a, d') := m d in k a d'.

Definition uint8 : t byte :=
  λ '(buf, offset), (nth offset buf x00, (buf, S offset)).
Definition uint32 : t Z :=
  λ '(buf, offset),
    (LittleEndian_Uint32 (firstn 4 (skipn offset buf)), (buf, (offset + 4)%nat)).

Definition run {A} (m : t A) (buf : list byte) : A := fst (m (buf, O)).
End decoder.

Notation "x ←' m ; k" := (decoder.bind m (λ x, k))
  (at level 20, m at level 100, k at level 200, right associativity,
   only parsing).

(** [d.value(v)] at a [PartitionMetadata]: the fields in declaration
    order, [uint8] for a [byte], [uint32] for a [uint32]. *)
Definition decode_PartitionMetadata : decoder.t PartitionMetadata :=
  status ←' decoder.uint8;
  startHead ←' decoder.uint8;
  startSector ←' decoder.uint8;
  startCylinder ←' decoder.uint8;
  partitionType ←' decoder.uint8;
  endHead ←' decoder.uint8;
  endSector ←' decoder.uint8;
  endCylinder ←' decoder.uint8;
  firstSectorLBA ←' decoder.uint32;
  sectorCount ←' decoder.uint32;
  decoder.ret (mkPartitionMetadata status startHead startSector startCylinder
                 partitionType endHead endSector endCylinder
                 firstSectorLBA sectorCount).

(** [dataSize] of a [PartitionMetadata]: eight bytes and two [uint32]. *)
Definition dataSize_PartitionMetadata : nat := 16.

(** [binary.Read(f, binary.LittleEndian, &PartitionMetadata{})]: fill a
    buffer of [dataSize] bytes with [io.ReadFull], return its error if any,
    else decode the buffer. *)
Definition binary_Read (f : File) : (error + PartitionMetadata) * File :=
  let '((buf, err), f') := io_ReadFull f dataSize_PartitionMetadata in
  match err with
  | Some e => (inl e, f')
  | None => (inr (decoder.run decode_PartitionMetadata buf), f')
  end.

(** ** The data model and its store

    [ImageFileMetadata] objects live in a store and are named by their
    location: a [Partition] holds the location of the image it was found
    in, and the image holds its partitions.  A pointer is [option loc],
    [None] being [nil].  A [Partition] and its embedded
    [*PartitionMetadata] are written once, when they are built, and are
    held here by value. *)

Abbreviation loc := positive.

Record Partition : Type := mkPartition {
  metadata : PartitionMetadata;
  ImageFile : option loc
}.

Record ImageFileMetadata : Type := mkImageFileMetadata {
  SectorSize : Z;       (* uint16 *)
  Filepath : string;
  Partitions : list Partition
}.

Abbreviation heap := (gmap loc ImageFileMetadata).

(** [&ImageFileMetadata{...}]: a new object at a location not in use. *)
Definition new (v : ImageFileMetadata) (h : heap) : loc * heap :=
  let l := fresh (dom h) in (l, <[l := v]> h).

(** [im.Partitions = append(im.Partitions, partition)] through the pointer
    [im]. *)
Definition append_Partitions (im : loc) (partition : Partition) (h : heap) : heap :=
  alter (λ v, {| SectorSize := SectorSize v; Filepath := Filepath v;
                 Partitions := Partitions v ++ [partition] |}) im h.

(** ** [AnalyzeImageFile] *)

(** The loop over the four slots, by the number of iterations left
    ([4 - partitionIndex]).  A failed read leaves the loop and the function
    at once with the wrapped error. *)
Fixpoint read_partitions (remaining : nat) (imageMetadata : loc)
    (imageFile : File) (h : heap) : option error * heap :=
  match remaining with
  | O => (None, h)
  | S remaining' =>
      match binary_Read imageFile with
      | (inl err, _) =>
          (Some (errors_Wrap err "could not read partition entry"), h)
      | (inr metadata, imageFile') =>
          let partition :=
            {| metadata := metadata; ImageFile := Some imageMetadata |} in
          read_partitions remaining' imageMetadata imageFile'
            (append_Partitions imageMetadata partition h)
      end
  end.

(** The result is Go's pair of a pointer to an [ImageFileMetadata] and an
    [error], with the store after the call. *)
Definition AnalyzeImageFile (fs : FileSystem) (path : string) (h : heap)
    : (option loc * option error) * heap :=
  match os_Open fs path with
  | inl err => ((None, Some (errors_Wrap err "could not open image file")), h)
  | inr imageFile =>
      match File_Seek imageFile MBRPartitionTableOffset with
      | inl err =>
          ((None, Some (errors_Wrap err "could not seek partition table")), h)
      | inr (_, imageFile) =>
          let '(imageMetadata, h) :=
            new {| SectorSize := 512; Filepath := path; Partitions := [] |} h in
          match read_partitions 4 imageMetadata imageFile h with
          | (Some err, h) => ((None, Some err), h)
          | (None, h) => ((Some imageMetadata, None), h)
          end
      end
  end.

(** ** The accessors

    [p.ImageFile.SectorSize] dereferences the back-reference; [None] is the
    run-time panic of a nil dereference.  The product is a [uint64]
    product, reduced modulo [2^64]. *)

Definition Start (h : heap) (p : Partition) : option Z :=
  match ImageFile p with
  | None => None
  | Some l =>
      match h !! l with
      | None => None
      | Some im =>
          Some (uint64 (uint64 (FirstSectorLBA (metadata p)) * uint64 (SectorSize im)))
      end
  end.

Definition Size (h : heap) (p : Partition) : option Z :=
  match ImageFile p with
  | None => None
  | Some l =>
      match h !! l with
      | None => None
      | Some im =>
          Some (uint64 (uint64 (SectorCount (metadata p)) * uint64 (SectorSize im)))
      end
  end.

(** ** A sample image: the 1024-byte image of the specification's scenario *)

Definition sample_entry : list byte :=
  [x80; x00; x01; x00; x0b; x00; x00; x00; x3f; x00; x00; x00; x01; xf8; x0b; x00].

Definition sample_image : list byte :=
  repeat x00 446 ++ sample_entry ++ repeat x00 (1024 - 446 - 16).

Definition sample_fs (d : list byte) : FileSystem :=
  λ path, if String.eqb path "disk.img" then inr (mkResource d true) else inl ENOENT.

(** ** The specification's vocabulary

    The error kinds of the specification's taxonomy.  The reader tells
    them apart by the message it wraps the cause in. *)

Inductive ErrorKind : Type := OpenFailed | SeekFailed | DecodeFailed.

Definition kind_of (e : error) : option ErrorKind :=
  match e with
  | withMessage _ msg =>
      if String.eqb msg "could not open image file" then Some OpenFailed
      else if String.eqb msg "could not seek partition table" then Some SeekFailed
      else if String.eqb msg "could not read partition entry" then Some DecodeFailed
      else None
  | _ => None
  end.

(** The byte of an image at an absolute offset. *)
Definition byte_at (d : list byte) (off : nat) : byte := nth off d x00.

(** The value of the little-endian 32-bit integer stored at an offset. *)
Definition le32_at (d : list byte) (off : nat) : Z :=
  byte_to_Z (byte_at d off)
  + 2 ^ 8 * byte_to_Z (byte_at d (off + 1))
  + 2 ^ 16 * byte_to_Z (byte_at d (off + 2))
  + 2 ^ 24 * byte_to_Z (byte_at d (off + 3)).

(** The entry layout of the specification's table (section 6), read from
    the 16 bytes of an image that start at [off]. *)
Definition layout_entry (d : list byte) (off : nat) : PartitionMetadata :=
  {| Status := byte_at d off;
     StartHead := byte_at d (off + 1);
     StartSector := byte_at d (off + 2);
     StartCylinder := byte_at d (off + 3);
     PartitionType := byte_at d (off + 4);
     EndHead := byte_at d (off + 5);
     EndSector := byte_at d (off + 6);
     EndCylinder := byte_at d (off + 7);
     FirstSectorLBA := le32_at d (off + 8);
     SectorCount := le32_at d (off + 12) |}.

(** Re-encoding, as the specification words it: each field written back at
    its entry offset, the 32-bit fields low byte first (what
    [binary.LittleEndian.PutUint32] writes). *)
Definition put_le32 (v : Z) : list byte :=
  [byte_of_Z v; byte_of_Z (Z.shiftr v 8);
   byte_of_Z (Z.shiftr v 16); byte_of_Z (Z.shiftr v 24)].

Definition encode_entry (m : PartitionMetadata) : list byte :=
  [Status m; StartHead m; StartSector m; StartCylinder m;
   PartitionType m; EndHead m; EndSector m; EndCylinder m]
  ++ put_le32 (FirstSectorLBA m) ++ put_le32 (SectorCount m).

Definition encode_table (ms : list PartitionMetadata) : list byte :=
  flat_map encode_entry ms.

(** The all-zero entry. *)
Definition zero_entry : PartitionMetadata :=
  mkPartitionMetadata x00 x00 x00 x00 x00 x00 x00 x00 0 0.

(** The entries that [n] successive reads of 16 bytes decode from [bs]. *)
Fixpoint table_entries (n : nat) (bs : list byte) : list PartitionMetadata :=
  match n with
  | O => []
  | S n' =>
      decoder.run decode_PartitionMetadata (firstn 16 bs)
      :: table_entries n' (skipn 16 bs)
  end.

(** An entry whose 32-bit fields are in range. *)
Definition wf_entry (m : PartitionMetadata) : Prop :=
  0 ≤ FirstSectorLBA m < 2 ^ 32 ∧ 0 ≤ SectorCount m < 2 ^ 32.

(** ** [String]

    [fmt.Sprintf] with the verb [%v] at an unsigned integer ([byte],
    [uint32], [uint64]): its decimal digits. *)
Definition fmt_v (x : Z) : string := pretty x.

(** [p.String()].  The arguments are evaluated before the formatting, so
    a nil back-reference makes the call panic ([None]) as it does for
    [Start] and [Size]. *)
Definition Partition_String (h : heap) (p : Partition) : option string :=
  match Start h p, Size h p with
  | Some start, Some size =>
      Some ("status: " +:+ fmt_v (byte_to_Z (Status (metadata p)))
            +:+ " type: " +:+ fmt_v (byte_to_Z (PartitionType (metadata p)))
            +:+ ", start: " +:+ fmt_v (FirstSectorLBA (metadata p))
            +:+ " sectors (" +:+ fmt_v start
            +:+ " B), length: " +:+ fmt_v (SectorCount (metadata p))
            +:+ " sectors (" +:+ fmt_v size +:+ " B)")
  | _, _ => None
  end.

(** Decimal digits, and strings made of them: what tells a number from
    the text around it in the output of [String]. *)
Definition is_digit (c : Ascii.ascii) : bool :=
  (48 <=? Ascii.nat_of_ascii c)%nat && (Ascii.nat_of_ascii c <=? 57)%nat.

Fixpoint all_digits (s : string) : bool :=
  match s with
  | EmptyString => true
  | String c s' => is_digit c && all_digits s'
  end.

(** A string that cannot continue a number: empty, or starting with a
    character that is not a digit. *)
Definition no_digit_ahead (s : string) : bool :=
  match s with
  | EmptyString => true
  | String c _ => negb (is_digit c)
  end.

(** * Properties *)

(** The reader on the sample image: slot 0 starts at sector 0x3F = 63 and
    its count bytes [01 F8 0B 00] are 0x000BF801 = 784385 sectors, so it
    starts at byte 32256 and is 401605120 bytes long; the other three
    slots are empty. *)
Example sample_result :
  let '((r, e), h) := AnalyzeImageFile (sample_fs sample_image) "disk.img" ∅ in
  e = None ∧
  match r with
  | Some l =>
      match h !! l with
      | Some im =>
          Filepath im = "disk.img"%string ∧
          (λ p, (Start h p, Size h p)) <$> Partitions im
          = [(Some 32256, Some 401605120); (Some 0, Some 0);
             (Some 0, Some 0); (Some 0, Some 0)]
      | None => False
      end
  | None => False
  end.
Proof. vm_compute. auto. Qed.

(** ** Bytes and little-endian integers *)

Lemma byte_to_Z_range (b : byte) : 0 ≤ byte_to_Z b < 256.
Proof.
  unfold byte_to_Z. pose proof (Byte.to_N_bounded b). lia.
Qed.

Lemma byte_of_to_Z (b : byte) : byte_of_Z (byte_to_Z b) = b.
Proof.
  unfold byte_of_Z. pose proof (byte_to_Z_range b) as Hb.
  rewrite Z.mod_small by lia. unfold byte_to_Z.
  by rewrite N2Z.id, Byte.of_to_N.
Qed.

Ltac pow_consts :=
  change (2 ^ 8) with 256 in *; change (2 ^ 16) with 65536 in *;
  change (2 ^ 24) with 16777216 in *; change (2 ^ 32) with 4294967296 in *.

Lemma lor_shiftl_add (a b n : Z) :
  0 ≤ n → 0 ≤ a < 2 ^ n → Z.lor a (Z.shiftl b n) = a + b * 2 ^ n.
Proof.
  intros Hn Ha.
  assert (Hland : Z.land a (Z.shiftl b n) = 0).
  { apply Z.bits_inj'. intros i Hi.
    rewrite Z.land_spec, Z.bits_0.
    destruct (Z.lt_ge_cases i n) as [Hlt | Hge].
    - rewrite Z.shiftl_spec_low by done. apply andb_false_r.
    - rewrite <- (Z.mod_small a (2 ^ n)) by done.
      rewrite Z.mod_pow2_bits_high by lia. done. }
  rewrite <- Z.lxor_lor, <- Z.add_nocarry_lxor by done.
  by rewrite Z.shiftl_mul_pow2.
Qed.

Lemma LittleEndian_Uint32_value (b0 b1 b2 b3 : byte) (rest : list byte) :
  LittleEndian_Uint32 (b0 :: b1 :: b2 :: b3 :: rest)
  = byte_to_Z b0 + 2 ^ 8 * byte_to_Z b1 + 2 ^ 16 * byte_to_Z b2
    + 2 ^ 24 * byte_to_Z b3.
Proof.
  unfold LittleEndian_Uint32, uint32. cbn [nth].
  pose proof (byte_to_Z_range b0). pose proof (byte_to_Z_range b1).
  pose proof (byte_to_Z_range b2). pose proof (byte_to_Z_range b3).
  rewrite !Z.shiftl_mul_pow2 by lia.
  rewrite !Z.mod_small by lia.
  rewrite <- !Z.shiftl_mul_pow2 by lia.
  rewrite (lor_shiftl_add (byte_to_Z b0)) by lia.
  rewrite (lor_shiftl_add (_ + _) _ 16) by (pow_consts; lia).
  rewrite (lor_shiftl_add (_ + _) _ 24) by (pow_consts; lia).
  lia.
Qed.

Lemma put_le32_value (b0 b1 b2 b3 : byte) :
  put_le32 (byte_to_Z b0 + 2 ^ 8 * byte_to_Z b1 + 2 ^ 16 * byte_to_Z b2
            + 2 ^ 24 * byte_to_Z b3)
  = [b0; b1; b2; b3].
Proof.
  pose proof (byte_to_Z_range b0). pose proof (byte_to_Z_range b1).
  pose proof (byte_to_Z_range b2). pose proof (byte_to_Z_range b3).
  set (v := _ + _ + _ + _).
  assert (H0' : v mod 256 = byte_to_Z b0)
    by (subst v; pow_consts; Z.div_mod_to_equations; lia).
  assert (H1' : (v / 2 ^ 8) mod 256 = byte_to_Z b1)
    by (subst v; pow_consts; Z.div_mod_to_equations; lia).
  assert (H2' : (v / 2 ^ 16) mod 256 = byte_to_Z b2)
    by (subst v; pow_consts; Z.div_mod_to_equations; lia).
  assert (H3' : (v / 2 ^ 24) mod 256 = byte_to_Z b3)
    by (subst v; pow_consts; Z.div_mod_to_equations; lia).
  unfold put_le32. rewrite !Z.shiftr_div_pow2 by lia.
  unfold byte_of_Z. rewrite H0', H1', H2', H3'.
  unfold byte_to_Z. by rewrite !N2Z.id, !Byte.of_to_N.
Qed.

(** ** Decoding one entry *)

Ltac explode_list bs H :=
  repeat (destruct bs as [| ? bs]; [discriminate H |]);
  destruct bs; [| discriminate H].

Lemma byte_at_slice (d : list byte) (off k : nat) :
  (k < 16)%nat → nth k (firstn 16 (skipn off d)) x00 = byte_at d (off + k).
Proof.
  intros Hk. unfold byte_at.
  by rewrite !nth_lookup, lookup_take_lt, lookup_drop.
Qed.

Lemma decode_explicit (b0 b1 b2 b3 b4 b5 b6 b7 b8 b9 b10 b11 b12 b13 b14 b15 : byte) :
  decoder.run decode_PartitionMetadata
    [b0; b1; b2; b3; b4; b5; b6; b7; b8; b9; b10; b11; b12; b13; b14; b15]
  = mkPartitionMetadata b0 b1 b2 b3 b4 b5 b6 b7
      (byte_to_Z b8 + 2 ^ 8 * byte_to_Z b9 + 2 ^ 16 * byte_to_Z b10
       + 2 ^ 24 * byte_to_Z b11)
      (byte_to_Z b12 + 2 ^ 8 * byte_to_Z b13 + 2 ^ 16 * byte_to_Z b14
       + 2 ^ 24 * byte_to_Z b15).
Proof.
  unfold decoder.run, decode_PartitionMetadata, decoder.bind, decoder.ret,
    decoder.uint8, decoder.uint32.
  cbn [fst nth firstn skipn Nat.add].
  by rewrite !LittleEndian_Uint32_value.
Qed.

Lemma decode_layout (d : list byte) (off : nat) :
  (off + 16 ≤ length d)%nat →
  decoder.run decode_PartitionMetadata (firstn 16 (skipn off d))
  = layout_entry d off.
Proof.
  intros Hlen.
  pose proof (byte_at_slice d off) as Hat.
  assert (Hl : length (firstn 16 (skipn off d)) = 16%nat)
    by (rewrite length_take, length_drop; lia).
  set (bs := firstn 16 (skipn off d)) in *. clearbody bs.
  unfold layout_entry, le32_at. rewrite <- !Nat.add_assoc. cbn [Nat.add].
  replace (byte_at d off) with (nth 0 bs x00)
    by (rewrite Hat by lia; f_equal; lia).
  rewrite <- !Hat by lia.
  destruct bs as [| c0 bs]; [discriminate Hl |].
  explode_list bs Hl.
  by rewrite decode_explicit.
Qed.

Lemma layout_entry_zero (d : list byte) (off : nat) :
  (∀ k, (k < 16)%nat → byte_at d (off + k) = x00) →
  layout_entry d off = zero_entry.
Proof.
  intros Hz. unfold layout_entry, le32_at.
  rewrite <- !Nat.add_assoc. cbn [Nat.add].
  rewrite <- (Nat.add_0_r off) at 1.
  rewrite !Hz by lia. done.
Qed.

Lemma le32_range (b0 b1 b2 b3 : byte) :
  0 ≤ byte_to_Z b0 + 2 ^ 8 * byte_to_Z b1 + 2 ^ 16 * byte_to_Z b2
      + 2 ^ 24 * byte_to_Z b3 < 2 ^ 32.
Proof.
  pose proof (byte_to_Z_range b0). pose proof (byte_to_Z_range b1).
  pose proof (byte_to_Z_range b2). pose proof (byte_to_Z_range b3).
  pow_consts. lia.
Qed.

Lemma decode_wf (bs : list byte) :
  length bs = 16%nat → wf_entry (decoder.run decode_PartitionMetadata bs).
Proof.
  intros Hl. destruct bs as [| c0 bs]; [discriminate Hl |].
  explode_list bs Hl. rewrite decode_explicit.
  split; apply le32_range.
Qed.

Lemma encode_decode_entry (bs : list byte) :
  length bs = 16%nat →
  encode_entry (decoder.run decode_PartitionMetadata bs) = bs.
Proof.
  intros Hl. destruct bs as [| c0 bs]; [discriminate Hl |].
  explode_list bs Hl. rewrite decode_explicit.
  unfold encode_entry. cbn [Status StartHead StartSector StartCylinder
    PartitionType EndHead EndSector EndCylinder FirstSectorLBA SectorCount].
  by rewrite !put_le32_value.
Qed.

(** ** Reading one entry from a file *)

Section Reading.
Variables (f : File) (d : list byte) (p : nat).
Hypothesis Hd : data (resource f) = d.
Hypothesis Hp : Z.to_nat (pos f) = p.

Lemma binary_Read_full :
  (p + 16 ≤ length d)%nat →
  binary_Read f
  = (inr (decoder.run decode_PartitionMetadata (firstn 16 (skipn p d))),
     {| name := name f; resource := resource f; pos := pos f + 16 |}).
Proof using Hd Hp.
  intros Hlen. unfold binary_Read, io_ReadFull, File_Read,
    dataSize_PartitionMetadata.
  rewrite Hd, Hp.
  assert (Hl : length (firstn 16 (skipn p d)) = 16%nat)
    by (rewrite length_take, length_drop; lia).
  destruct (firstn 16 (skipn p d)) as [| c bs] eqn:E; [discriminate Hl |].
  rewrite Hl. done.
Qed.

Lemma binary_Read_EOF :
  (length d ≤ p)%nat → ∃ f', binary_Read f = (inl io_EOF, f').
Proof using Hd Hp.
  intros Hlen. unfold binary_Read, io_ReadFull, File_Read,
    dataSize_PartitionMetadata.
  rewrite Hd, Hp, (drop_ge d p) by done. cbn. eauto.
Qed.

Lemma binary_Read_short :
  (p < length d < p + 16)%nat →
  ∃ f', binary_Read f = (inl io_ErrUnexpectedEOF, f').
Proof using Hd Hp.
  intros Hlen. unfold binary_Read, io_ReadFull, File_Read,
    dataSize_PartitionMetadata.
  rewrite Hd, Hp.
  assert (Hl : length (firstn 16 (skipn p d)) = (length d - p)%nat)
    by (rewrite length_take, length_drop; lia).
  destruct (firstn 16 (skipn p d)) as [| c bs] eqn:E;
    [cbn in Hl; lia |].
  destruct (Nat.ltb_spec (length (c :: bs)) 16); [eauto | lia].
Qed.
End Reading.

(** ** The loop over the slots *)

Lemma table_entries_length (n : nat) (bs : list byte) :
  length (table_entries n bs) = n.
Proof. revert bs. induction n as [| n IH]; intros bs; cbn; [done |]. by rewrite IH. Qed.

Lemma table_entries_lookup (n i : nat) (bs : list byte) :
  (i < n)%nat →
  table_entries n bs !! i
  = Some (decoder.run decode_PartitionMetadata (firstn 16 (skipn (16 * i) bs))).
Proof.
  revert i bs. induction n as [| n IH]; intros i bs Hi; [lia |].
  destruct i as [| i]; cbn [table_entries]; [done |].
  change ((?x :: ?l) !! S i) with (l !! i).
  rewrite IH by lia. rewrite drop_drop. do 4 f_equal. lia.
Qed.

Lemma read_partitions_full (n : nat) (l : loc) :
  ∀ (f : File) (h0 : heap) (v : ImageFileMetadata),
    0 ≤ pos f →
    (Z.to_nat (pos f) + 16 * n ≤ length (data (resource f)))%nat →
    read_partitions n l f (<[l := v]> h0)
    = (None,
       <[l := {| SectorSize := SectorSize v; Filepath := Filepath v;
                 Partitions :=
                   Partitions v
                   ++ ((λ m, mkPartition m (Some l))
                         <$> table_entries n
                               (skipn (Z.to_nat (pos f)) (data (resource f)))) |}]> h0).
Proof.
  induction n as [| n IH]; intros f h0 v Hpos Hlen.
  - cbn. rewrite app_nil_r. by destruct v.
  - cbn [read_partitions].
    rewrite (binary_Read_full f _ _ eq_refl eq_refl) by lia.
    unfold append_Partitions. rewrite alter_insert_eq.
    rewrite IH by (cbn; lia). cbn [SectorSize Filepath Partitions pos resource].
    do 3 f_equal. rewrite <- app_assoc. f_equal. cbn [table_entries fmap list_fmap].
    cbn. do 3 f_equal. rewrite drop_drop. f_equal. lia.
Qed.

Lemma read_partitions_short (n : nat) (l : loc) :
  ∀ (f : File) (h : heap) (j : nat),
    0 ≤ pos f → (j < n)%nat →
    (j = 0%nat ∨ Z.to_nat (pos f) + 16 * j ≤ length (data (resource f)))%nat →
    (length (data (resource f)) < Z.to_nat (pos f) + 16 * S j)%nat →
    (read_partitions n l f h).1
    = Some (errors_Wrap
              (if decide (length (data (resource f))
                          ≤ Z.to_nat (pos f) + 16 * j)%nat
               then io_EOF else io_ErrUnexpectedEOF)
              "could not read partition entry").
Proof.
  induction n as [| n IH]; intros f h j Hpos Hj Hlo Hhi; [lia |].
  cbn [read_partitions]. destruct j as [| j].
  - case_decide as Heq.
    + destruct (binary_Read_EOF f _ _ eq_refl eq_refl) as [f' ->]; [lia | done].
    + destruct (binary_Read_short f _ _ eq_refl eq_refl) as [f' ->]; [lia | done].
  - rewrite (binary_Read_full f _ _ eq_refl eq_refl) by lia.
    rewrite (IH _ _ j) by (cbn; lia). cbn [pos resource].
    replace (Z.to_nat (pos f + 16) + 16 * j)%nat
      with (Z.to_nat (pos f) + 16 * S j)%nat by lia.
    done.
Qed.

(** ** The reader as a whole *)

Section Analyze.
Variables (fs : FileSystem) (path : string) (h : heap) (r : Resource).
Hypothesis Hopen : fs path = inr r.
Hypothesis Hseek : seekable r = true.

Lemma AnalyzeImageFile_full :
  (510 ≤ length (data r))%nat →
  AnalyzeImageFile fs path h
  = ((Some (fresh (dom h)), None),
     <[fresh (dom h) :=
         {| SectorSize := 512; Filepath := path;
            Partitions :=
              (λ m, mkPartition m (Some (fresh (dom h))))
                <$> table_entries 4 (skipn 446 (data r)) |}]> h).
Proof using Hopen Hseek.
  intros Hlen. unfold AnalyzeImageFile, os_Open, File_Seek, new.
  rewrite Hopen. cbn [resource name pos]. rewrite Hseek.
  change (MBRPartitionTableOffset <? 0) with false. cbn iota.
  rewrite read_partitions_full; cbn [pos resource]; done.
Qed.

Lemma AnalyzeImageFile_truncated (j : nat) :
  (j < 4)%nat →
  (j = 0%nat ∨ 446 + 16 * j ≤ length (data r))%nat →
  (length (data r) < 446 + 16 * S j)%nat →
  (AnalyzeImageFile fs path h).1
  = (None,
     Some (errors_Wrap
             (if decide (length (data r) ≤ 446 + 16 * j)%nat
              then io_EOF else io_ErrUnexpectedEOF)
             "could not read partition entry")).
Proof using Hopen Hseek.
  intros Hj Hlo Hhi. unfold AnalyzeImageFile, os_Open, File_Seek, new.
  rewrite Hopen. cbn [resource name pos]. rewrite Hseek.
  change (MBRPartitionTableOffset <? 0) with false. cbn iota.
  match goal with |- context [read_partitions 4 ?l ?f ?h'] =>
    pose proof (read_partitions_short 4 l f h' j) as Hr;
    destruct (read_partitions 4 l f h') as [e h'']
  end.
  cbn [pos resource fst] in Hr.
  change (Z.to_nat MBRPartitionTableOffset) with 446%nat in Hr.
  rewrite Hr by (done || lia). done.
Qed.
End Analyze.



Lemma AnalyzeImageFile_cases (fs : FileSystem) (path : string) (h : heap) :
  (∃ e, (AnalyzeImageFile fs path h).1 = (None, Some e))
  ∨ (∃ r, fs path = inr r ∧ seekable r = true ∧ (510 ≤ length (data r))%nat).
Proof.
  destruct (fs path) as [en | r] eqn:Hopen.
  { left. unfold AnalyzeImageFile, os_Open. rewrite Hopen. eauto. }
  destruct (seekable r) eqn:Hseek.
  2: { left. unfold AnalyzeImageFile, os_Open, File_Seek.
       rewrite Hopen. cbn [resource]. rewrite Hseek. eauto. }
  destruct (decide (510 ≤ length (data r))%nat) as [| Hshort]; [eauto |].
  left.
  set (j := ((length (data r) - 446) / 16)%nat).
  assert (Hdiv : (16 * j ≤ length (data r) - 446 < 16 * S j)%nat).
  { subst j. pose proof (Nat.div_mod_eq (length (data r) - 446) 16).
    pose proof (Nat.mod_upper_bound (length (data r) - 446) 16). lia. }
  eexists. apply (AnalyzeImageFile_truncated fs path h r Hopen Hseek j); lia.
Qed.

Lemma AnalyzeImageFile_inv (fs : FileSystem) (path : string) (h h' : heap)
    (l : loc) (e : option error) :
  AnalyzeImageFile fs path h = ((Some l, e), h') →
  ∃ r, fs path = inr r ∧ seekable r = true ∧ (510 ≤ length (data r))%nat
       ∧ l = fresh (dom h) ∧ e = None
       ∧ h' = <[l :=
                  {| SectorSize := 512; Filepath := path;
                     Partitions :=
                       (λ m, mkPartition m (Some l))
                         <$> table_entries 4 (skipn 446 (data r)) |}]> h.
Proof.
  intros Hrun.
  destruct (AnalyzeImageFile_cases fs path h) as [[e' He'] | (r & Ho & Hs & Hl)].
  { rewrite Hrun in He'. cbn [fst] in He'. congruence. }
  exists r. do 3 (split; [done |]).
  rewrite (AnalyzeImageFile_full fs path h r Ho Hs Hl) in Hrun.
  pose proof (f_equal (λ x, x.1.1) Hrun) as H1.
  pose proof (f_equal (λ x, x.1.2) Hrun) as H2.
  pose proof (f_equal snd Hrun) as H3.
  cbn [fst snd] in H1, H2, H3.
  assert (l = fresh (dom h)) as -> by congruence.
  by rewrite <- H2, <- H3.
Qed.

(** ** The table as a whole *)

Lemma table_entries_prefix (n : nat) (bs : list byte) :
  table_entries n bs = table_entries n (firstn (16 * n) bs).
Proof.
  revert bs. induction n as [| n IH]; intros bs; [done |].
  cbn [table_entries]. rewrite take_take.
  replace (16 `min` (16 * S n))%nat with 16%nat by lia. f_equal.
  rewrite IH. f_equal.
  replace (16 * S n)%nat with (16 + 16 * n)%nat by lia.
  by rewrite take_drop_commute.
Qed.

Lemma table_entries_wf (n : nat) (bs : list byte) :
  (16 * n ≤ length bs)%nat → Forall wf_entry (table_entries n bs).
Proof.
  revert bs. induction n as [| n IH]; intros bs Hlen; cbn [table_entries].
  - constructor.
  - constructor.
    + apply decode_wf. rewrite length_take. lia.
    + apply IH. rewrite length_drop. lia.
Qed.

Lemma encode_table_entries (n : nat) (bs : list byte) :
  (16 * n ≤ length bs)%nat →
  encode_table (table_entries n bs) = firstn (16 * n) bs.
Proof.
  revert bs. induction n as [| n IH]; intros bs Hlen; [done |].
  cbn [table_entries encode_table flat_map].
  rewrite encode_decode_entry by (rewrite length_take; lia).
  fold (encode_table (table_entries n (skipn 16 bs))).
  rewrite IH by (rewrite length_drop; lia).
  replace (16 * S n)%nat with (16 + 16 * n)%nat by lia.
  by rewrite take_take_drop.
Qed.

Lemma metadata_of_partitions (back : option loc) (ms : list PartitionMetadata) :
  metadata <$> ((λ m, mkPartition m back) <$> ms) = ms.
Proof.
  induction ms as [| m ms IH]; [done |]. cbn [fmap list_fmap] in *.
  by rewrite IH.
Qed.

(** ** The accessors on a well-formed partition *)

Lemma uint64_product (a b : Z) :
  0 ≤ a < 2 ^ 32 → 0 ≤ b < 2 ^ 16 → uint64 (uint64 a * uint64 b) = a * b.
Proof.
  intros Ha Hb. unfold uint64.
  rewrite (Z.mod_small a), (Z.mod_small b) by lia.
  apply Z.mod_small. nia.
Qed.

(** * The claims *)

(** C1.  An image that opens, seeks and holds all of the bytes 446..509 is
    analysed successfully, and the partition at slot [i] (0..3, in table
    order) carries the fields that the section 6 layout assigns to the 16
    bytes at absolute offset [446 + 16 * i]: eight single bytes, then
    [firstSectorLBA] and [sectorCount] as little-endian 32-bit integers. *)
Theorem C1_slots_decoded_per_layout (fs : FileSystem) (path : string)
    (h : heap) (r : Resource) :
  fs path = inr r → seekable r = true → (510 ≤ length (data r))%nat →
  ∃ l im h',
    AnalyzeImageFile fs path h = ((Some l, None), h')
    ∧ h' !! l = Some im
    ∧ length (Partitions im) = 4%nat
    ∧ ∀ i, (i < 4)%nat →
        ∃ p, Partitions im !! i = Some p
             ∧ metadata p = layout_entry (data r) (446 + 16 * i).
Proof.
  intros Hopen Hseek Hlen.
  eexists _, _, _. split; [by apply AnalyzeImageFile_full |].
  split; [apply lookup_insert_eq |]. cbn [Partitions].
  split; [by rewrite length_fmap, table_entries_length |].
  intros i Hi. rewrite list_lookup_fmap, table_entries_lookup by done.
  eexists. split; [done |]. cbn [metadata].
  rewrite drop_drop. apply decode_layout. lia.
Qed.

Lemma C1_witness :
  ∃ l im h',
    AnalyzeImageFile (sample_fs sample_image) "disk.img" ∅ = ((Some l, None), h')
    ∧ h' !! l = Some im
    ∧ length (Partitions im) = 4%nat
    ∧ ∀ i, (i < 4)%nat →
        ∃ p, Partitions im !! i = Some p
             ∧ metadata p = layout_entry sample_image (446 + 16 * i).
Proof.
  apply (C1_slots_decoded_per_layout (sample_fs sample_image) "disk.img" ∅
           (mkResource sample_image true)).
  - reflexivity.
  - reflexivity.
  - vm_compute. lia.
Defined.

(** C2.  On a partition whose back-reference names a live image, [Start]
    and [Size] return (they do not fail) exactly
    [firstSectorLBA * sectorSize] and [sectorCount * sectorSize]: for every
    32-bit sector number and count and every 16-bit sector size the 64-bit
    product does not wrap.  Both are 0 on the all-zero entry. *)
Theorem C2_Start_Size_exact (h : heap) (p : Partition) (l : loc)
    (im : ImageFileMetadata) :
  ImageFile p = Some l → h !! l = Some im →
  0 ≤ FirstSectorLBA (metadata p) < 2 ^ 32 →
  0 ≤ SectorCount (metadata p) < 2 ^ 32 →
  0 ≤ SectorSize im < 2 ^ 16 →
  Start h p = Some (FirstSectorLBA (metadata p) * SectorSize im)
  ∧ Size h p = Some (SectorCount (metadata p) * SectorSize im)
  ∧ 0 ≤ FirstSectorLBA (metadata p) * SectorSize im < 2 ^ 64
  ∧ 0 ≤ SectorCount (metadata p) * SectorSize im < 2 ^ 64
  ∧ (metadata p = zero_entry → Start h p = Some 0 ∧ Size h p = Some 0).
Proof.
  intros Hp Hl Hlba Hcnt Hss.
  assert (HS : Start h p = Some (FirstSectorLBA (metadata p) * SectorSize im))
    by (unfold Start; by rewrite Hp, Hl, uint64_product).
  assert (HZ : Size h p = Some (SectorCount (metadata p) * SectorSize im))
    by (unfold Size; by rewrite Hp, Hl, uint64_product).
  split; [done |]. split; [done |]. split; [nia |]. split; [nia |].
  intros Hz. rewrite HS, HZ, Hz. done.
Qed.

Lemma C2_witness :
  let p := mkPartition
             (mkPartitionMetadata x80 x00 x01 x00 x0b x00 x00 x00
                (2 ^ 32 - 1) (2 ^ 32 - 1)) (Some 1%positive) in
  let im := mkImageFileMetadata (2 ^ 16 - 1) "disk.img" [p] in
  let h : heap := {[ 1%positive := im ]} in
  Start h p = Some ((2 ^ 32 - 1) * (2 ^ 16 - 1))
  ∧ Size h p = Some ((2 ^ 32 - 1) * (2 ^ 16 - 1))
  ∧ 0 ≤ (2 ^ 32 - 1) * (2 ^ 16 - 1) < 2 ^ 64
  ∧ 0 ≤ (2 ^ 32 - 1) * (2 ^ 16 - 1) < 2 ^ 64
  ∧ (metadata p = zero_entry → Start h p = Some 0 ∧ Size h p = Some 0).
Proof.
  intros p im h.
  apply (C2_Start_Size_exact h p 1%positive im).
  - reflexivity.
  - reflexivity.
  - vm_compute. split; [discriminate | reflexivity].
  - vm_compute. split; [discriminate | reflexivity].
  - vm_compute. split; [discriminate | reflexivity].
Defined.

(** C3.  Whatever the path names, [AnalyzeImageFile] either fails, with a
    non-nil error and a nil metadata pointer, or succeeds, with a nil error
    and a metadata object that holds exactly four partitions.  Nothing in
    between is returned. *)
Theorem C3_all_or_nothing (fs : FileSystem) (path : string) (h : heap) :
  let '((res, err), h') := AnalyzeImageFile fs path h in
  (res = None ∧ err ≠ None)
  ∨ (err = None
     ∧ ∃ l im, res = Some l ∧ h' !! l = Some im
               ∧ length (Partitions im) = 4%nat).
Proof.
  destruct (AnalyzeImageFile_cases fs path h) as [[e He] | (r & Ho & Hs & Hl)].
  - destruct (AnalyzeImageFile fs path h) as [[res err] h'].
    cbn in He. inversion He. by left.
  - rewrite (AnalyzeImageFile_full fs path h r Ho Hs Hl).
    right. split; [done |]. eexists _, _.
    split; [done |]. split; [apply lookup_insert_eq |].
    cbn [Partitions]. by rewrite length_fmap, table_entries_length.
Qed.

(** C4, as the specification states it, fails: an empty regular file (0
    bytes, shorter than 446) is not reported as a seek failure.  The seek
    beyond the end succeeds and the first read fails. *)
Lemma C4_short_image_is_not_a_seek_failure :
  ¬ ∃ e, (AnalyzeImageFile (sample_fs []) "disk.img" ∅).1 = (None, Some e)
         ∧ kind_of e = Some SeekFailed.
Proof.
  intros (e & He & Hk). vm_compute in He. inversion He; subst e.
  vm_compute in Hk. discriminate Hk.
Qed.

(** C4, amended.  A seekable resource shorter than 446 bytes passes the
    seek and fails at the first read: the error is the read failure
    wrapping [io.EOF], and the metadata pointer is nil. *)
Theorem C4_short_image_fails_at_first_read (fs : FileSystem) (path : string)
    (h : heap) (r : Resource) :
  fs path = inr r → seekable r = true → (length (data r) < 446)%nat →
  ∃ e, (AnalyzeImageFile fs path h).1 = (None, Some e)
       ∧ e = errors_Wrap io_EOF "could not read partition entry"
       ∧ kind_of e = Some DecodeFailed.
Proof.
  intros Hopen Hseek Hlen. eexists. split; [| done].
  rewrite (AnalyzeImageFile_truncated fs path h r Hopen Hseek 0) by lia.
  by rewrite decide_True by lia.
Qed.

Lemma C4_witness :
  ∃ e, (AnalyzeImageFile (sample_fs [x80; x00; x01]) "disk.img" ∅).1
       = (None, Some e)
       ∧ e = errors_Wrap io_EOF "could not read partition entry"
       ∧ kind_of e = Some DecodeFailed.
Proof.
  apply (C4_short_image_fails_at_first_read (sample_fs [x80; x00; x01])
           "disk.img" ∅ (mkResource [x80; x00; x01] true)).
  - reflexivity.
  - reflexivity.
  - vm_compute. lia.
Defined.

(** C5, as the specification states it, fails: on an image of exactly 446
    bytes the reader does not report a table-location (seek) failure; what
    it reports is the read failure. *)
Lemma C5_image_of_446_bytes_is_a_read_failure :
  ¬ ∃ e, (AnalyzeImageFile (sample_fs (repeat x00 446)) "disk.img" ∅).1
         = (None, Some e)
         ∧ kind_of e = Some SeekFailed ∧ kind_of e ≠ Some DecodeFailed.
Proof.
  intros (e & He & Hk & _). vm_compute in He. inversion He; subst e.
  vm_compute in Hk. discriminate Hk.
Qed.

(** C5, amended.  On a seekable image of exactly 446 bytes the seek to
    the table succeeds and the read of slot 0 finds no byte: the failure is
    of the read (decode) kind, with cause [io.EOF], not of the seek kind. *)
Theorem C5_image_of_446_bytes_fails_decoding (fs : FileSystem)
    (path : string) (h : heap) (r : Resource) :
  fs path = inr r → seekable r = true → length (data r) = 446%nat →
  ∃ e, AnalyzeImageFile fs path h
       = ((None, Some e), (AnalyzeImageFile fs path h).2)
       ∧ e = errors_Wrap io_EOF "could not read partition entry"
       ∧ kind_of e = Some DecodeFailed ∧ kind_of e ≠ Some SeekFailed.
Proof.
  intros Hopen Hseek Hlen. eexists. split; [| done].
  rewrite (surjective_pairing (AnalyzeImageFile fs path h)) at 1. f_equal.
  rewrite (AnalyzeImageFile_truncated fs path h r Hopen Hseek 0) by lia.
  by rewrite decide_True by lia.
Qed.

Lemma C5_witness :
  ∃ e, AnalyzeImageFile (sample_fs (repeat x00 446)) "disk.img" ∅
       = ((None, Some e),
          (AnalyzeImageFile (sample_fs (repeat x00 446)) "disk.img" ∅).2)
       ∧ e = errors_Wrap io_EOF "could not read partition entry"
       ∧ kind_of e = Some DecodeFailed ∧ kind_of e ≠ Some SeekFailed.
Proof.
  apply (C5_image_of_446_bytes_fails_decoding (sample_fs (repeat x00 446))
           "disk.img" ∅ (mkResource (repeat x00 446) true)).
  - reflexivity.
  - reflexivity.
  - vm_compute. reflexivity.
Defined.

(** C6, as the specification states it, fails: no reading of the error
    value recovers the first slot that could not be read.  Images of 446
    and of 462 bytes fail at slots 0 and 1 with one and the same error. *)
Lemma C6_error_does_not_identify_the_slot :
  ¬ ∃ slot_of : error → nat,
      ∀ N, N = 0%nat ∨ N = 16%nat →
        ∃ e, (AnalyzeImageFile (sample_fs (repeat x00 (446 + N))) "disk.img" ∅).1
             = (None, Some e)
             ∧ kind_of e = Some DecodeFailed
             ∧ slot_of e = (N / 16)%nat.
Proof.
  intros (slot_of & Hall).
  destruct (Hall 0%nat) as (e0 & He0 & _ & Hs0); [by left |].
  destruct (Hall 16%nat) as (e1 & He1 & _ & Hs1); [by right |].
  vm_compute in He0, He1. inversion He0; subst e0. inversion He1; subst e1.
  rewrite Hs0 in Hs1. vm_compute in Hs1. discriminate Hs1.
Qed.

(** C6, amended.  A seekable image of [446 + N] bytes, [N < 64], makes the
    reader fail as a whole: the metadata pointer is nil and the error is the
    read failure, whose cause is [io.EOF] when the first unreadable slot
    has no byte at all ([N] a multiple of 16) and [io.ErrUnexpectedEOF]
    when it has some.  Message and cause are all the error holds. *)
Theorem C6_truncated_table_fails_reading (fs : FileSystem) (path : string)
    (h : heap) (r : Resource) (N : nat) :
  fs path = inr r → seekable r = true →
  (N < 64)%nat → length (data r) = (446 + N)%nat →
  (AnalyzeImageFile fs path h).1
  = (None,
     Some (errors_Wrap
             (if decide (N mod 16 = 0)%nat then io_EOF else io_ErrUnexpectedEOF)
             "could not read partition entry"))
  ∧ kind_of (errors_Wrap
               (if decide (N mod 16 = 0)%nat then io_EOF else io_ErrUnexpectedEOF)
               "could not read partition entry") = Some DecodeFailed.
Proof.
  intros Hopen Hseek HN Hlen. split; [| done].
  pose proof (Nat.div_mod_eq N 16) as Hdm.
  pose proof (Nat.mod_upper_bound N 16) as Hub.
  rewrite (AnalyzeImageFile_truncated fs path h r Hopen Hseek (N / 16)) by lia.
  do 3 f_equal. repeat case_decide; (done || lia).
Qed.

Lemma C6_witness :
  (AnalyzeImageFile (sample_fs (repeat x00 (446 + 20))) "disk.img" ∅).1
  = (None,
     Some (errors_Wrap
             (if decide (20 mod 16 = 0)%nat then io_EOF else io_ErrUnexpectedEOF)
             "could not read partition entry"))
  ∧ kind_of (errors_Wrap
               (if decide (20 mod 16 = 0)%nat then io_EOF else io_ErrUnexpectedEOF)
               "could not read partition entry") = Some DecodeFailed.
Proof.
  apply (C6_truncated_table_fails_reading (sample_fs (repeat x00 (446 + 20)))
           "disk.img" ∅ (mkResource (repeat x00 (446 + 20)) true) 20).
  - reflexivity.
  - reflexivity.
  - lia.
  - vm_compute. reflexivity.
Defined.

(** C7.  In a successful analysis, a slot whose 16 bytes are all zero is
    decoded into the all-zero entry, which stays at its slot position among
    the four partitions, and [Start] and [Size] of that partition are 0. *)
Theorem C7_zero_slot_preserved (fs : FileSystem) (path : string) (h h' : heap)
    (r : Resource) (l : loc) (e : option error) (i : nat) :
  fs path = inr r →
  AnalyzeImageFile fs path h = ((Some l, e), h') →
  (i < 4)%nat →
  (∀ k, (k < 16)%nat → byte_at (data r) (446 + 16 * i + k) = x00) →
  e = None
  ∧ ∃ im p,
      h' !! l = Some im
      ∧ length (Partitions im) = 4%nat
      ∧ Partitions im !! i = Some p
      ∧ metadata p = zero_entry
      ∧ Start h' p = Some 0 ∧ Size h' p = Some 0.
Proof.
  intros Hopen Hrun Hi Hzero.
  destruct (AnalyzeImageFile_inv _ _ _ _ _ _ Hrun)
    as (r' & Ho & Hs & Hl & _ & -> & ->).
  assert (r' = r) by congruence. subst r'. clear Hrun.
  split; [done |].
  eexists _, _. split; [apply lookup_insert_eq |]. cbn [Partitions].
  split; [by rewrite length_fmap, table_entries_length |].
  split; [by rewrite list_lookup_fmap, table_entries_lookup |].
  assert (Hm : decoder.run decode_PartitionMetadata
                 (firstn 16 (skipn (16 * i) (skipn 446 (data r)))) = zero_entry).
  { rewrite drop_drop, decode_layout by lia. by apply layout_entry_zero. }
  split; [done |].
  unfold Start, Size. cbn [ImageFile metadata]. rewrite lookup_insert_eq, Hm.
  done.
Qed.

Lemma C7_witness :
  None = None :> option error
  ∧ ∃ im p,
      (AnalyzeImageFile (sample_fs sample_image) "disk.img" ∅).2 !! 1%positive
      = Some im
      ∧ length (Partitions im) = 4%nat
      ∧ Partitions im !! 2%nat = Some p
      ∧ metadata p = zero_entry
      ∧ Start (AnalyzeImageFile (sample_fs sample_image) "disk.img" ∅).2 p = Some 0
      ∧ Size (AnalyzeImageFile (sample_fs sample_image) "disk.img" ∅).2 p = Some 0.
Proof.
  apply (C7_zero_slot_preserved (sample_fs sample_image) "disk.img" ∅ _
           (mkResource sample_image true) 1%positive None 2).
  - reflexivity.
  - vm_compute. reflexivity.
  - lia.
  - intros k Hk.
    do 16 (destruct k as [| k]; [vm_compute; reflexivity |]). lia.
Defined.

(** C8.  For every 64-byte table region, placed at offset 446 of an image,
    the four entries the reader decodes, written back field by field at
    their entry offsets with the 32-bit fields low byte first, give the 64
    bytes of the region again. *)
Theorem C8_decode_encode_roundtrip (fs : FileSystem) (path : string)
    (h : heap) (before table after : list byte) :
  fs path = inr (mkResource (before ++ table ++ after) true) →
  length before = 446%nat → length table = 64%nat →
  ∃ l im h',
    AnalyzeImageFile fs path h = ((Some l, None), h')
    ∧ h' !! l = Some im
    ∧ encode_table (metadata <$> Partitions im) = table.
Proof.
  intros Hopen Hb Ht.
  eexists _, _, _. split.
  { apply (AnalyzeImageFile_full fs path h _ Hopen eq_refl).
    cbn [data]. rewrite !length_app. lia. }
  split; [apply lookup_insert_eq |]. cbn [Partitions data].
  rewrite metadata_of_partitions.
  rewrite (drop_app_length' before) by done.
  rewrite encode_table_entries by (rewrite length_app; lia).
  by apply take_app_length'.
Qed.

Lemma C8_witness :
  ∃ l im h',
    AnalyzeImageFile (sample_fs sample_image) "disk.img" ∅ = ((Some l, None), h')
    ∧ h' !! l = Some im
    ∧ encode_table (metadata <$> Partitions im) = sample_entry ++ repeat x00 48.
Proof.
  apply (C8_decode_encode_roundtrip (sample_fs sample_image) "disk.img" ∅
           (repeat x00 446) (sample_entry ++ repeat x00 48) (repeat x00 514)).
  - vm_compute. reflexivity.
  - vm_compute. reflexivity.
  - vm_compute. reflexivity.
Defined.

(** C9.  In the metadata a successful analysis returns, the sector size is
    512 and every one of the four partitions points back to that same
    metadata object; so [Start] is [firstSectorLBA * 512] and [Size] is
    [sectorCount * 512] for each of them. *)
Theorem C9_back_reference_and_sector_size (fs : FileSystem) (path : string)
    (h h' : heap) (l : loc) (e : option error) :
  AnalyzeImageFile fs path h = ((Some l, e), h') →
  ∃ im,
    h' !! l = Some im
    ∧ SectorSize im = 512
    ∧ length (Partitions im) = 4%nat
    ∧ ∀ p, p ∈ Partitions im →
        ImageFile p = Some l
        ∧ Start h' p = Some (FirstSectorLBA (metadata p) * 512)
        ∧ Size h' p = Some (SectorCount (metadata p) * 512).
Proof.
  intros Hrun.
  destruct (AnalyzeImageFile_inv _ _ _ _ _ _ Hrun)
    as (r & Ho & Hs & Hl & _ & _ & ->). clear Hrun.
  eexists. split; [apply lookup_insert_eq |]. split; [done |].
  cbn [Partitions].
  split; [by rewrite length_fmap, table_entries_length |].
  intros p Hp. apply list_elem_of_fmap in Hp as (m & -> & Hm).
  pose proof (table_entries_wf 4 (skipn 446 (data r))) as Hwf.
  rewrite Forall_forall in Hwf.
  destruct (Hwf ltac:(rewrite length_drop; lia) m Hm) as [Hlba Hcnt].
  split; [done |].
  unfold Start, Size. cbn [ImageFile metadata].
  rewrite lookup_insert_eq. cbn [SectorSize].
  by rewrite !uint64_product by (done || lia).
Qed.

Lemma C9_witness :
  ∃ im,
    (AnalyzeImageFile (sample_fs sample_image) "disk.img" ∅).2 !! 1%positive
    = Some im
    ∧ SectorSize im = 512
    ∧ length (Partitions im) = 4%nat
    ∧ ∀ p, p ∈ Partitions im →
        ImageFile p = Some 1%positive
        ∧ Start (AnalyzeImageFile (sample_fs sample_image) "disk.img" ∅).2 p
          = Some (FirstSectorLBA (metadata p) * 512)
        ∧ Size (AnalyzeImageFile (sample_fs sample_image) "disk.img" ∅).2 p
          = Some (SectorCount (metadata p) * 512).
Proof.
  apply (C9_back_reference_and_sector_size (sample_fs sample_image)
           "disk.img" ∅ _ 1%positive None).
  vm_compute. reflexivity.
Defined.

(** C10.  Two images long enough to hold the table, opened under the same
    path, that agree on the 64 bytes at offsets 446..509 are both analysed
    successfully, and the two results have the same sector size, the same
    file path and the same partition fields, slot by slot, whatever their
    other bytes and whatever the stores they are built in. *)
Theorem C10_result_depends_on_table_only (fs1 fs2 : FileSystem)
    (path : string) (h1 h2 : heap) (r1 r2 : Resource) :
  fs1 path = inr r1 → fs2 path = inr r2 →
  seekable r1 = true → seekable r2 = true →
  (510 ≤ length (data r1))%nat → (510 ≤ length (data r2))%nat →
  firstn 64 (skipn 446 (data r1)) = firstn 64 (skipn 446 (data r2)) →
  ∃ l1 im1 h1' l2 im2 h2',
    AnalyzeImageFile fs1 path h1 = ((Some l1, None), h1')
    ∧ AnalyzeImageFile fs2 path h2 = ((Some l2, None), h2')
    ∧ h1' !! l1 = Some im1 ∧ h2' !! l2 = Some im2
    ∧ SectorSize im1 = SectorSize im2
    ∧ Filepath im1 = Filepath im2
    ∧ metadata <$> Partitions im1 = metadata <$> Partitions im2.
Proof.
  intros Ho1 Ho2 Hs1 Hs2 Hl1 Hl2 Heq.
  eexists _, _, _, _, _, _.
  split; [by apply (AnalyzeImageFile_full fs1 path h1 r1) |].
  split; [by apply (AnalyzeImageFile_full fs2 path h2 r2) |].
  split; [apply lookup_insert_eq |]. split; [apply lookup_insert_eq |].
  split; [done |]. split; [done |]. cbn [Partitions].
  rewrite !metadata_of_partitions.
  rewrite (table_entries_prefix 4 (skipn 446 (data r1))).
  rewrite (table_entries_prefix 4 (skipn 446 (data r2))).
  change (16 * 4)%nat with 64%nat. by rewrite Heq.
Qed.

Lemma C10_witness :
  ∃ l1 im1 h1' l2 im2 h2',
    AnalyzeImageFile (sample_fs sample_image) "disk.img" ∅ = ((Some l1, None), h1')
    ∧ AnalyzeImageFile
        (sample_fs (repeat xff 446 ++ sample_entry ++ repeat x00 48 ++ [x55; xaa]))
        "disk.img" {[ 1%positive := mkImageFileMetadata 512 "other.img" [] ]}
      = ((Some l2, None), h2')
    ∧ h1' !! l1 = Some im1 ∧ h2' !! l2 = Some im2
    ∧ SectorSize im1 = SectorSize im2
    ∧ Filepath im1 = Filepath im2
    ∧ metadata <$> Partitions im1 = metadata <$> Partitions im2.
Proof.
  apply (C10_result_depends_on_table_only
           (sample_fs sample_image)
           (sample_fs (repeat xff 446 ++ sample_entry ++ repeat x00 48 ++ [x55; xaa]))
           "disk.img" ∅ {[ 1%positive := mkImageFileMetadata 512 "other.img" [] ]}
           (mkResource sample_image true)
           (mkResource (repeat xff 446 ++ sample_entry ++ repeat x00 48 ++ [x55; xaa])
              true)).
  - reflexivity.
  - reflexivity.
  - reflexivity.
  - reflexivity.
  - vm_compute. lia.
  - vm_compute. lia.
  - vm_compute. reflexivity.
Defined.

(** * Further properties of the reader *)

(** ** The store *)

Lemma read_partitions_frame (n : nat) (l l0 : loc) :
  ∀ (f : File) (h : heap),
    l0 ≠ l → (read_partitions n l f h).2 !! l0 = h !! l0.
Proof.
  induction n as [| n IH]; intros f h Hne; [done |].
  cbn [read_partitions].
  destruct (binary_Read f) as [[err | m] f']; [done |].
  rewrite IH by done. unfold append_Partitions.
  by rewrite lookup_alter_ne.
Qed.

Lemma fresh_not_live (h : heap) (l0 : loc) (v : ImageFileMetadata) :
  h !! l0 = Some v → l0 ≠ fresh (dom h).
Proof.
  intros Hl0 ->. apply (is_fresh (dom h)). apply elem_of_dom. eauto.
Qed.

(** X1.  The reader never touches what the store already holds: an
    [ImageFileMetadata] that was live before the call is the same after it,
    whether the call succeeds or fails. *)
Theorem X1_existing_objects_untouched (fs : FileSystem) (path : string)
    (h : heap) (l0 : loc) (v : ImageFileMetadata) :
  h !! l0 = Some v → (AnalyzeImageFile fs path h).2 !! l0 = Some v.
Proof.
  intros Hl0. unfold AnalyzeImageFile, new.
  destruct (os_Open fs path) as [err | f]; [done |].
  destruct (File_Seek f MBRPartitionTableOffset) as [err | [off f']]; [done |].
  pose proof (read_partitions_frame 4 (fresh (dom h)) l0 f'
    (<[fresh (dom h) := {| SectorSize := 512; Filepath := path;
                           Partitions := [] |}]> h)
    (fresh_not_live h l0 v Hl0)) as Hfr.
  destruct (read_partitions 4 _ f' _) as [[err |] h']; cbn [snd] in *;
    by rewrite Hfr, lookup_insert_ne by (symmetry; by eapply fresh_not_live).
Qed.

Lemma X1_witness :
  (AnalyzeImageFile (sample_fs sample_image) "disk.img"
     {[ 1%positive := mkImageFileMetadata 512 "other.img" [] ]}).2 !! 1%positive
  = Some (mkImageFileMetadata 512 "other.img" []).
Proof.
  apply (X1_existing_objects_untouched (sample_fs sample_image) "disk.img"
           {[ 1%positive := mkImageFileMetadata 512 "other.img" [] ]} 1%positive).
  reflexivity.
Defined.

(** X2.  The metadata object of a successful call is a new one: its
    location was not in use before the call. *)
Theorem X2_result_is_a_new_object (fs : FileSystem) (path : string)
    (h h' : heap) (l : loc) (e : option error) :
  AnalyzeImageFile fs path h = ((Some l, e), h') →
  h !! l = None ∧ is_Some (h' !! l).
Proof.
  intros Hrun.
  destruct (AnalyzeImageFile_inv _ _ _ _ _ _ Hrun)
    as (r & _ & _ & _ & -> & _ & ->).
  split.
  - apply not_elem_of_dom, is_fresh.
  - rewrite lookup_insert_eq. eauto.
Qed.

Lemma X2_witness :
  ({[ 1%positive := mkImageFileMetadata 512 "other.img" [] ]} : heap) !! 2%positive
  = None
  ∧ is_Some ((AnalyzeImageFile (sample_fs sample_image) "disk.img"
                {[ 1%positive := mkImageFileMetadata 512 "other.img" [] ]}).2
             !! 2%positive).
Proof.
  apply (X2_result_is_a_new_object (sample_fs sample_image) "disk.img"
           {[ 1%positive := mkImageFileMetadata 512 "other.img" [] ]} _
           2%positive None).
  vm_compute. reflexivity.
Defined.

(** ** The outcomes *)





(** ** What the reader reads *)

Lemma read_partitions_ext (n : nat) (l : loc) :
  ∀ (f1 f2 : File) (h : heap),
    0 ≤ pos f1 → 0 ≤ pos f2 →
    firstn (16 * n) (skipn (Z.to_nat (pos f1)) (data (resource f1)))
    = firstn (16 * n) (skipn (Z.to_nat (pos f2)) (data (resource f2))) →
    read_partitions n l f1 h = read_partitions n l f2 h.
Proof.
  induction n as [| n IH]; intros f1 f2 h Hp1 Hp2 Heq; [done |].
  set (p1 := Z.to_nat (pos f1)) in *. set (d1 := data (resource f1)) in *.
  set (p2 := Z.to_nat (pos f2)) in *. set (d2 := data (resource f2)) in *.
  assert (H16 : firstn 16 (skipn p1 d1) = firstn 16 (skipn p2 d2)).
  { apply (f_equal (firstn 16)) in Heq. rewrite !take_take in Heq.
    by replace (16 `min` (16 * S n))%nat with 16%nat in Heq by lia. }
  assert (Hrest : firstn (16 * n) (skipn (p1 + 16) d1)
                  = firstn (16 * n) (skipn (p2 + 16) d2)).
  { apply (f_equal (skipn 16)) in Heq.
    replace (16 * S n)%nat with (16 + 16 * n)%nat in Heq by lia.
    by rewrite <- !take_drop_commute, !drop_drop in Heq. }
  pose proof (f_equal length H16) as Hlen.
  rewrite !length_take, !length_drop in Hlen.
  cbn [read_partitions].
  destruct (decide (p1 + 16 ≤ length d1)%nat) as [Hfull | Hshort].
  - rewrite (binary_Read_full f1 d1 p1 eq_refl eq_refl) by done.
    rewrite (binary_Read_full f2 d2 p2 eq_refl eq_refl) by lia.
    rewrite H16. apply IH; cbn [pos resource]; [lia | lia |].
    replace (Z.to_nat (pos f1 + 16)) with (p1 + 16)%nat by (subst p1; lia).
    by replace (Z.to_nat (pos f2 + 16)) with (p2 + 16)%nat by (subst p2; lia).
  - destruct (decide (length d1 ≤ p1)%nat) as [Hnone | Hsome].
    + destruct (binary_Read_EOF f1 d1 p1 eq_refl eq_refl) as [f1' ->]; [done |].
      by destruct (binary_Read_EOF f2 d2 p2 eq_refl eq_refl) as [f2' ->]; [lia |].
    + destruct (binary_Read_short f1 d1 p1 eq_refl eq_refl) as [f1' ->]; [lia |].
      by destruct (binary_Read_short f2 d2 p2 eq_refl eq_refl) as [f2' ->]; [lia |].
Qed.

(** X5.  The reader looks at nothing but the table region.  Two resources
    that agree on seekability and on what they hold from offset 446 up to
    offset 509 (as much of it as each has) give, under the same path and from
    the same store, the same outcome in full: the same result or the same
    error, and the same store.  Bytes before 446 and after 509 play no
    part, also when the image is truncated. *)
Theorem X5_only_the_table_region_is_read (fs1 fs2 : FileSystem)
    (path : string) (h : heap) (r1 r2 : Resource) :
  fs1 path = inr r1 → fs2 path = inr r2 →
  seekable r1 = seekable r2 →
  firstn 64 (skipn 446 (data r1)) = firstn 64 (skipn 446 (data r2)) →
  AnalyzeImageFile fs1 path h = AnalyzeImageFile fs2 path h.
Proof.
  intros Ho1 Ho2 Hs Heq. unfold AnalyzeImageFile, os_Open, File_Seek, new.
  rewrite Ho1, Ho2. cbn [resource name]. rewrite Hs.
  destruct (seekable r2); [| done].
  change (MBRPartitionTableOffset <? 0) with false. cbn iota.
  by rewrite (read_partitions_ext 4 _
                {| name := path; resource := r1; pos := MBRPartitionTableOffset |}
                {| name := path; resource := r2; pos := MBRPartitionTableOffset |}).
Qed.

Lemma X5_witness :
  AnalyzeImageFile (sample_fs (repeat x00 446 ++ sample_entry ++ [x01; x02]))
    "disk.img" ∅
  = AnalyzeImageFile (sample_fs (repeat xff 446 ++ sample_entry ++ [x01; x02]))
      "disk.img" ∅.
Proof.
  apply (X5_only_the_table_region_is_read _ _ "disk.img" ∅
           (mkResource (repeat x00 446 ++ sample_entry ++ [x01; x02]) true)
           (mkResource (repeat xff 446 ++ sample_entry ++ [x01; x02]) true)).
  - reflexivity.
  - reflexivity.
  - reflexivity.
  - vm_compute. reflexivity.
Defined.

(** ** The values the reader returns *)

(** X6.  Every partition of a successful result has 32-bit fields, and
    its [Start] and [Size] are defined, are multiples of 512 and are below
    [2^41]: with the fixed sector size no offset or length reaches 2 TiB. *)
Theorem X6_offsets_aligned_and_bounded (fs : FileSystem) (path : string)
    (h h' : heap) (l : loc) (e : option error) (im : ImageFileMetadata) :
  AnalyzeImageFile fs path h = ((Some l, e), h') →
  h' !! l = Some im →
  ∀ p, p ∈ Partitions im →
    wf_entry (metadata p)
    ∧ ∃ s z, Start h' p = Some s ∧ Size h' p = Some z
             ∧ 0 ≤ s < 2 ^ 41 ∧ 0 ≤ z < 2 ^ 41
             ∧ s mod 512 = 0 ∧ z mod 512 = 0.
Proof.
  intros Hrun Him p Hp.
  destruct (AnalyzeImageFile_inv _ _ _ _ _ _ Hrun)
    as (r & Ho & Hs & Hl & _ & _ & ->). clear Hrun.
  rewrite lookup_insert_eq in Him. apply (inj Some) in Him as <-.
  cbn [Partitions] in Hp. apply list_elem_of_fmap in Hp as (m & -> & Hm).
  pose proof (table_entries_wf 4 (skipn 446 (data r))) as Hwf.
  rewrite Forall_forall in Hwf.
  pose proof (Hwf ltac:(rewrite length_drop; lia) m Hm) as [Hlba Hcnt].
  split; [done |].
  unfold Start, Size. cbn [ImageFile metadata].
  rewrite lookup_insert_eq. cbn [SectorSize].
  rewrite !uint64_product by (done || lia).
  eexists _, _. do 2 (split; [done |]).
  rewrite !Z.mod_mul by done.
  change (2 ^ 41) with (2 ^ 32 * 512). repeat split; (done || lia).
Qed.

Lemma X6_witness :
  let p := mkPartition
             (mkPartitionMetadata x80 x00 x01 x00 x0b x00 x00 x00 63 784385)
             (Some 1%positive) in
  wf_entry (metadata p)
  ∧ ∃ s z,
      Start (AnalyzeImageFile (sample_fs sample_image) "disk.img" ∅).2 p = Some s
      ∧ Size (AnalyzeImageFile (sample_fs sample_image) "disk.img" ∅).2 p = Some z
      ∧ 0 ≤ s < 2 ^ 41 ∧ 0 ≤ z < 2 ^ 41
      ∧ s mod 512 = 0 ∧ z mod 512 = 0.
Proof.
  intros p.
  apply (X6_offsets_aligned_and_bounded (sample_fs sample_image) "disk.img"
           ∅ (AnalyzeImageFile (sample_fs sample_image) "disk.img" ∅).2
           1%positive None
           (mkImageFileMetadata 512 "disk.img"
              ((λ m, mkPartition m (Some 1%positive))
                 <$> table_entries 4 (skipn 446 sample_image)))).
  - vm_compute. reflexivity.
  - vm_compute. reflexivity.
  - vm_compute. apply list_elem_of_here.
Defined.

(** X7.  The partition fields determine the table: if two successful
    analyses return the same fields slot by slot, the two images hold the
    same 64 bytes at offsets 446..509.  No byte of the table is lost by
    decoding. *)
Theorem X7_fields_determine_the_table (fs1 fs2 : FileSystem)
    (path1 path2 : string) (h1 h1' h2 h2' : heap) (r1 r2 : Resource)
    (l1 l2 : loc) (e1 e2 : option error) (im1 im2 : ImageFileMetadata) :
  fs1 path1 = inr r1 → fs2 path2 = inr r2 →
  AnalyzeImageFile fs1 path1 h1 = ((Some l1, e1), h1') →
  AnalyzeImageFile fs2 path2 h2 = ((Some l2, e2), h2') →
  h1' !! l1 = Some im1 → h2' !! l2 = Some im2 →
  metadata <$> Partitions im1 = metadata <$> Partitions im2 →
  firstn 64 (skipn 446 (data r1)) = firstn 64 (skipn 446 (data r2)).
Proof.
  intros Ho1 Ho2 Hrun1 Hrun2 Him1 Him2 Heq.
  destruct (AnalyzeImageFile_inv _ _ _ _ _ _ Hrun1)
    as (r1' & Ho1' & _ & Hl1 & _ & _ & ->).
  destruct (AnalyzeImageFile_inv _ _ _ _ _ _ Hrun2)
    as (r2' & Ho2' & _ & Hl2 & _ & _ & ->).
  assert (r1' = r1) by congruence. assert (r2' = r2) by congruence. subst.
  rewrite lookup_insert_eq in Him1, Him2.
  apply (inj Some) in Him1 as <-. apply (inj Some) in Him2 as <-.
  cbn [Partitions] in Heq. rewrite !metadata_of_partitions in Heq.
  apply (f_equal encode_table) in Heq.
  by rewrite !encode_table_entries in Heq by (rewrite length_drop; lia).
Qed.

Lemma X7_witness :
  firstn 64 (skipn 446 sample_image)
  = firstn 64 (skipn 446 (repeat xff 446 ++ sample_entry ++ repeat x00 48)).
Proof.
  apply (X7_fields_determine_the_table
           (sample_fs sample_image)
           (sample_fs (repeat xff 446 ++ sample_entry ++ repeat x00 48))
           "disk.img" "disk.img"
           ∅ (AnalyzeImageFile (sample_fs sample_image) "disk.img" ∅).2
           ∅ (AnalyzeImageFile
                (sample_fs (repeat xff 446 ++ sample_entry ++ repeat x00 48))
                "disk.img" ∅).2
           (mkResource sample_image true)
           (mkResource (repeat xff 446 ++ sample_entry ++ repeat x00 48) true)
           1%positive 1%positive None None
           (mkImageFileMetadata 512 "disk.img"
              ((λ m, mkPartition m (Some 1%positive))
                 <$> table_entries 4 (skipn 446 sample_image)))
           (mkImageFileMetadata 512 "disk.img"
              ((λ m, mkPartition m (Some 1%positive))
                 <$> table_entries 4 (skipn 446 sample_image)))).
  - reflexivity.
  - reflexivity.
  - vm_compute. reflexivity.
  - vm_compute. reflexivity.
  - vm_compute. reflexivity.
  - vm_compute. reflexivity.
  - reflexivity.
Defined.

Lemma byte_to_of_Z (z : Z) : byte_to_Z (byte_of_Z z) = z mod 256.
Proof.
  unfold byte_to_Z, byte_of_Z.
  pose proof (Z.mod_pos_bound z 256 ltac:(lia)) as Hb.
  pose proof (Byte.to_of_N_option_map (Z.to_N (z mod 256))) as Hn.
  destruct (N.leb_spec (Z.to_N (z mod 256)) 255) as [_ | Hgt]; [| lia].
  destruct (Byte.of_N (Z.to_N (z mod 256))) as [b |]; [| discriminate Hn].
  cbn in Hn. injection Hn as ->. lia.
Qed.

Lemma le32_of_put_le32 (v : Z) :
  0 ≤ v < 2 ^ 32 →
  byte_to_Z (byte_of_Z v)
  + 2 ^ 8 * byte_to_Z (byte_of_Z (Z.shiftr v 8))
  + 2 ^ 16 * byte_to_Z (byte_of_Z (Z.shiftr v 16))
  + 2 ^ 24 * byte_to_Z (byte_of_Z (Z.shiftr v 24)) = v.
Proof.
  intros Hv. rewrite !byte_to_of_Z, !Z.shiftr_div_pow2 by lia.
  pow_consts. Z.div_mod_to_equations. lia.
Qed.

Lemma decode_encode_entry (m : PartitionMetadata) :
  wf_entry m → decoder.run decode_PartitionMetadata (encode_entry m) = m.
Proof.
  intros [Hlba Hcnt]. destruct m. cbn in Hlba, Hcnt.
  unfold encode_entry, put_le32.
  cbn [Status StartHead StartSector StartCylinder PartitionType EndHead
       EndSector EndCylinder FirstSectorLBA SectorCount app].
  rewrite decode_explicit. by rewrite !le32_of_put_le32.
Qed.

Lemma encode_entry_length (m : PartitionMetadata) :
  length (encode_entry m) = 16%nat.
Proof. done. Qed.

Lemma table_entries_encode (ms : list PartitionMetadata) (rest : list byte) :
  Forall wf_entry ms →
  table_entries (length ms) (encode_table ms ++ rest) = ms.
Proof.
  induction 1 as [| m ms Hm _ IH]; [done |].
  cbn [length table_entries encode_table flat_map].
  fold (encode_table ms). rewrite <- app_assoc.
  rewrite (take_app_length' (encode_entry m)) by done.
  rewrite (drop_app_length' (encode_entry m)) by done.
  by rewrite decode_encode_entry, IH.
Qed.

(** X8.  Every choice of four entries with 32-bit sector fields is what
    the reader returns for some image: there is a 510-byte image on which
    the analysis succeeds with exactly these fields, slot by slot.  The
    reader rejects no field value. *)
Theorem X8_every_table_is_decodable (ms : list PartitionMetadata) :
  length ms = 4%nat → Forall wf_entry ms →
  ∃ d : list byte,
    length d = 510%nat
    ∧ ∀ (fs : FileSystem) (path : string) (h : heap),
        fs path = inr (mkResource d true) →
        ∃ l im h',
          AnalyzeImageFile fs path h = ((Some l, None), h')
          ∧ h' !! l = Some im
          ∧ metadata <$> Partitions im = ms.
Proof.
  intros Hlen Hwf.
  assert (Henc : length (encode_table ms) = 64%nat).
  { do 5 (destruct ms as [| ? ms]; try discriminate Hlen). done. }
  exists (repeat x00 446 ++ encode_table ms).
  split; [rewrite length_app, repeat_length; lia |].
  intros fs path h Hopen.
  eexists _, _, _. split.
  { apply (AnalyzeImageFile_full fs path h _ Hopen eq_refl).
    cbn [data]. rewrite length_app, repeat_length. lia. }
  split; [apply lookup_insert_eq |]. cbn [Partitions data].
  rewrite metadata_of_partitions.
  rewrite (drop_app_length' (repeat x00 446)) by (by rewrite repeat_length).
  rewrite <- (app_nil_r (encode_table ms)), <- Hlen.
  by apply table_entries_encode.
Qed.

Lemma X8_witness :
  ∃ d : list byte,
    length d = 510%nat
    ∧ ∀ (fs : FileSystem) (path : string) (h : heap),
        fs path = inr (mkResource d true) →
        ∃ l im h',
          AnalyzeImageFile fs path h = ((Some l, None), h')
          ∧ h' !! l = Some im
          ∧ metadata <$> Partitions im
            = [mkPartitionMetadata x80 x00 x01 x00 x0b x00 x00 x00 63 784385;
               zero_entry;
               mkPartitionMetadata x00 xfe xff xff x83 xfe xff xff
                 (2 ^ 32 - 1) (2 ^ 32 - 1);
               zero_entry].
Proof.
  apply (X8_every_table_is_decodable
           [mkPartitionMetadata x80 x00 x01 x00 x0b x00 x00 x00 63 784385;
            zero_entry;
            mkPartitionMetadata x00 xfe xff xff x83 xfe xff xff
              (2 ^ 32 - 1) (2 ^ 32 - 1);
            zero_entry]).
  - reflexivity.
  - repeat constructor; cbn; lia.
Defined.

(** X9.  Analysing the same image again, in the store the first analysis
    left, succeeds again and builds a second, separate object: the first
    object is unchanged, the two hold the same fields, and the partitions
    of each point back to their own object. *)
Theorem X9_second_analysis_is_independent (fs : FileSystem) (path : string)
    (h h1 : heap) (l1 : loc) (e1 : option error) :
  AnalyzeImageFile fs path h = ((Some l1, e1), h1) →
  ∃ l2 h2 im1 im2,
    AnalyzeImageFile fs path h1 = ((Some l2, None), h2)
    ∧ l2 ≠ l1
    ∧ h1 !! l1 = Some im1 ∧ h2 !! l1 = Some im1 ∧ h2 !! l2 = Some im2
    ∧ metadata <$> Partitions im1 = metadata <$> Partitions im2
    ∧ Forall (λ p, ImageFile p = Some l1) (Partitions im1)
    ∧ Forall (λ p, ImageFile p = Some l2) (Partitions im2).
Proof.
  intros Hrun.
  destruct (AnalyzeImageFile_inv _ _ _ _ _ _ Hrun)
    as (r & Ho & Hs & Hl & _ & _ & Hh1).
  pose proof (AnalyzeImageFile_full fs path h1 r Ho Hs Hl) as Hrun2.
  assert (Hlive : h1 !! l1 = Some _) by (rewrite Hh1; apply lookup_insert_eq).
  pose proof (fresh_not_live h1 l1 _ Hlive) as Hne.
  eexists _, _, _, _. split; [exact Hrun2 |].
  split; [done |]. split; [exact Hlive |].
  split; [by rewrite lookup_insert_ne |].
  split; [apply lookup_insert_eq |]. cbn [Partitions].
  split; [by rewrite !metadata_of_partitions |].
  split; apply Forall_fmap, Forall_true; done.
Qed.

Lemma X9_witness :
  ∃ l2 h2 im1 im2,
    AnalyzeImageFile (sample_fs sample_image) "disk.img"
      (AnalyzeImageFile (sample_fs sample_image) "disk.img" ∅).2
    = ((Some l2, None), h2)
    ∧ l2 ≠ 1%positive
    ∧ (AnalyzeImageFile (sample_fs sample_image) "disk.img" ∅).2 !! 1%positive
      = Some im1
    ∧ h2 !! 1%positive = Some im1 ∧ h2 !! l2 = Some im2
    ∧ metadata <$> Partitions im1 = metadata <$> Partitions im2
    ∧ Forall (λ p, ImageFile p = Some 1%positive) (Partitions im1)
    ∧ Forall (λ p, ImageFile p = Some l2) (Partitions im2).
Proof.
  apply (X9_second_analysis_is_independent (sample_fs sample_image)
           "disk.img" ∅ _ 1%positive None).
  vm_compute. reflexivity.
Defined.

(** ** [String] *)

Lemma pretty_N_char_digit (x : N) : is_digit (pretty_N_char x) = true.
Proof. unfold pretty_N_char. repeat case_match; reflexivity. Qed.

Lemma pretty_N_go_digits (x : N) :
  ∀ s, all_digits s = true → all_digits (pretty_N_go x s) = true.
Proof.
  induction (N.lt_wf_0 x) as [x _ IH]; intros s Hs.
  destruct (decide (x = 0)%N) as [-> | Hx]; [by rewrite pretty_N_go_0 |].
  rewrite pretty_N_go_step by lia.
  apply IH; [apply N.div_lt; lia |].
  cbn [all_digits]. by rewrite pretty_N_char_digit.
Qed.

Lemma fmt_v_digits (z : Z) : 0 ≤ z → all_digits (fmt_v z) = true.
Proof.
  intros Hz. destruct z as [| x | x]; [done | | lia].
  unfold fmt_v, pretty, pretty_Z, pretty, pretty_positive, pretty, pretty_N.
  case_decide; [done |]. by apply pretty_N_go_digits.
Qed.

Lemma fmt_v_inj (a b : Z) : fmt_v a = fmt_v b → a = b.
Proof. unfold fmt_v. apply (inj pretty). Qed.

Lemma byte_to_Z_inj (a b : byte) : byte_to_Z a = byte_to_Z b → a = b.
Proof. intros H. by rewrite <- (byte_of_to_Z a), <- (byte_of_to_Z b), H. Qed.

Lemma append_inj_l (s a b : string) : s +:+ a = s +:+ b → a = b.
Proof.
  induction s as [| c s IH]; cbn; [done |]. intros [= H]. by apply IH.
Qed.

Lemma digits_app_inj (d1 : string) :
  ∀ d2 r1 r2,
    all_digits d1 = true → all_digits d2 = true →
    no_digit_ahead r1 = true → no_digit_ahead r2 = true →
    d1 +:+ r1 = d2 +:+ r2 → d1 = d2 ∧ r1 = r2.
Proof.
  induction d1 as [| c d1 IH]; intros [| c2 d2] r1 r2 H1 H2 Hr1 Hr2 Heq.
  - done.
  - change (r1 = String c2 (d2 +:+ r2)) in Heq. subst r1.
    cbn in Hr1, H2. apply andb_prop in H2 as [Hc _].
    rewrite Hc in Hr1. discriminate Hr1.
  - change (String c (d1 +:+ r1) = r2) in Heq. subst r2.
    cbn in Hr2, H1. apply andb_prop in H1 as [Hc _].
    rewrite Hc in Hr2. discriminate Hr2.
  - change (String c (d1 +:+ r1) = String c2 (d2 +:+ r2)) in Heq.
    injection Heq as -> Heq. cbn in H1, H2.
    apply andb_prop in H1 as [_ H1]. apply andb_prop in H2 as [_ H2].
    destruct (IH d2 r1 r2 H1 H2 Hr1 Hr2 Heq) as [-> ->]. done.
Qed.

Ltac next_number H Hn :=
  apply append_inj_l in H;
  apply digits_app_inj in H as [Hn H];
  [ apply fmt_v_inj in Hn
  | apply fmt_v_digits; first [apply byte_to_Z_range | by apply Z.mod_pos_bound | lia]
  | apply fmt_v_digits; first [apply byte_to_Z_range | by apply Z.mod_pos_bound | lia]
  | reflexivity
  | reflexivity ].

(** X10.  For two partitions of one image, [String] gives the same text
    exactly when they have the same status, type, first sector and sector
    count: the text tells partitions apart by these four fields, and by
    nothing else (the six CHS bytes do not show). *)
Theorem X10_String_shows_four_fields (h : heap) (p q : Partition) (l : loc)
    (im : ImageFileMetadata) :
  ImageFile p = Some l → ImageFile q = Some l → h !! l = Some im →
  wf_entry (metadata p) → wf_entry (metadata q) →
  Partition_String h p = Partition_String h q
  ↔ Status (metadata p) = Status (metadata q)
    ∧ PartitionType (metadata p) = PartitionType (metadata q)
    ∧ FirstSectorLBA (metadata p) = FirstSectorLBA (metadata q)
    ∧ SectorCount (metadata p) = SectorCount (metadata q).
Proof.
  intros Hp Hq Hl [Hlp Hcp] [Hlq Hcq].
  unfold Partition_String, Start, Size. rewrite Hp, Hq, Hl. split.
  - intros H. apply (inj Some) in H.
    next_number H Hstatus. next_number H Htype.
    next_number H Hlba. next_number H Hstart.
    next_number H Hcount.
    split; [by apply byte_to_Z_inj |]. split; [by apply byte_to_Z_inj |]. done.
  - intros (-> & -> & -> & ->). done.
Qed.

Lemma X10_witness :
  let p := mkPartition
             (mkPartitionMetadata x80 x00 x01 x00 x0b x00 x00 x00 63 784385)
             (Some 1%positive) in
  let q := mkPartition
             (mkPartitionMetadata x80 xfe xff xff x0b xfe xff xff 63 784385)
             (Some 1%positive) in
  let h : heap := {[ 1%positive := mkImageFileMetadata 512 "disk.img" [p; q] ]} in
  Partition_String h p = Partition_String h q
  ↔ Status (metadata p) = Status (metadata q)
    ∧ PartitionType (metadata p) = PartitionType (metadata q)
    ∧ FirstSectorLBA (metadata p) = FirstSectorLBA (metadata q)
    ∧ SectorCount (metadata p) = SectorCount (metadata q).
Proof.
  intros p q h.
  apply (X10_String_shows_four_fields h p q 1%positive
           (mkImageFileMetadata 512 "disk.img" [p; q])).
  - reflexivity.
  - reflexivity.
  - reflexivity.
  - split; cbn; lia.
  - split; cbn; lia.
Defined.

(** X11.  [String] never panics on what the reader returns: for every
    partition of a successful result it gives the text with the status and
    type in decimal, the first sector with its byte offset (512 times it)
    and the sector count with its byte length (512 times it). *)
Theorem X11_String_of_a_result (fs : FileSystem) (path : string)
    (h h' : heap) (l : loc) (e : option error) (im : ImageFileMetadata) :
  AnalyzeImageFile fs path h = ((Some l, e), h') →
  h' !! l = Some im →
  ∀ p, p ∈ Partitions im →
    Partition_String h' p
    = Some ("status: " +:+ fmt_v (byte_to_Z (Status (metadata p)))
            +:+ " type: " +:+ fmt_v (byte_to_Z (PartitionType (metadata p)))
            +:+ ", start: " +:+ fmt_v (FirstSectorLBA (metadata p))
            +:+ " sectors (" +:+ fmt_v (FirstSectorLBA (metadata p) * 512)
            +:+ " B), length: " +:+ fmt_v (SectorCount (metadata p))
            +:+ " sectors (" +:+ fmt_v (SectorCount (metadata p) * 512)
            +:+ " B)").
Proof.
  intros Hrun Him p Hp.
  destruct (AnalyzeImageFile_inv _ _ _ _ _ _ Hrun)
    as (r & Ho & Hs & Hl & _ & _ & ->). clear Hrun.
  rewrite lookup_insert_eq in Him. apply (inj Some) in Him as <-.
  cbn [Partitions] in Hp. apply list_elem_of_fmap in Hp as (m & -> & Hm).
  pose proof (table_entries_wf 4 (skipn 446 (data r))) as Hwf.
  rewrite Forall_forall in Hwf.
  pose proof (Hwf ltac:(rewrite length_drop; lia) m Hm) as [Hlba Hcnt].
  unfold Partition_String, Start, Size. cbn [ImageFile metadata].
  rewrite lookup_insert_eq. cbn [SectorSize].
  by rewrite !uint64_product by (done || lia).
Qed.

Lemma X11_witness :
  let p := mkPartition
             (mkPartitionMetadata x80 x00 x01 x00 x0b x00 x00 x00 63 784385)
             (Some 1%positive) in
  Partition_String (AnalyzeImageFile (sample_fs sample_image) "disk.img" ∅).2 p
  = Some ("status: " +:+ fmt_v (byte_to_Z (Status (metadata p)))
          +:+ " type: " +:+ fmt_v (byte_to_Z (PartitionType (metadata p)))
          +:+ ", start: " +:+ fmt_v (FirstSectorLBA (metadata p))
          +:+ " sectors (" +:+ fmt_v (FirstSectorLBA (metadata p) * 512)
          +:+ " B), length: " +:+ fmt_v (SectorCount (metadata p))
          +:+ " sectors (" +:+ fmt_v (SectorCount (metadata p) * 512)
          +:+ " B)").
Proof.
  intros p.
  apply (X11_String_of_a_result (sample_fs sample_image) "disk.img"
           ∅ (AnalyzeImageFile (sample_fs sample_image) "disk.img" ∅).2
           1%positive None
           (mkImageFileMetadata 512 "disk.img"
              ((λ m, mkPartition m (Some 1%positive))
                 <$> table_entries 4 (skipn 446 sample_image)))).
  - vm_compute. reflexivity.
  - vm_compute. reflexivity.
  - vm_compute. apply list_elem_of_here.
Defined.

(** The text for slot 0 of the sample image. *)
Example sample_String :
  Partition_String (AnalyzeImageFile (sample_fs sample_image) "disk.img" ∅).2
    (mkPartition
       (mkPartitionMetadata x80 x00 x01 x00 x0b x00 x00 x00 63 784385)
       (Some 1%positive))
  = Some "status: 128 type: 11, start: 63 sectors (32256 B), length: 784385 sectors (401605120 B)".
Proof. vm_compute. reflexivity. Qed.
